(** * Hatch CSV cleaner: a shallow embedding of [app.py]

    The development follows the source file top-down: Python strings and the
    text primitives the code calls, the field normalizers
    ([smart_cap_piece], [extract_first_name], [normalize_phone]), the pandas
    frames handled by [clean], the encoding loop of [load_csv_any], and then
    the properties of each of them. *)

From Stdlib Require Import NArith String Ascii.
From stdpp Require Import gmap list.

Local Open Scope N_scope.

(** ** Python strings

    A Python [str] is a sequence of Unicode code points; [re.split] and
    slicing act on code points, so a string is a list of their numbers. *)

Abbreviation str := (list N).

(** An ASCII literal of the source, as code points. *)
Definition lit (s : string) : str := N_of_ascii <$> list_ascii_of_string s.

(** U+2019, the right single quotation mark of the pattern in
    [smart_cap_piece]. *)
Definition rsquo : N := 0x2019.

(** Truth value of a string: [if s], [not s]. *)
Definition truthy (s : str) : bool :=
  match s with [] => false | _ :: _ => true end.

(** Truth value of [None | str], for the results of [dict.get]. *)
Definition truthy_opt (o : option str) : bool :=
  match o with Some s => truthy s | None => false end.

(** [a or b] on [None | str]. *)
Definition py_or (a b : option str) : option str :=
  if truthy_opt a then a else b.

(** ** Text primitives of the interpreter

    [str.upper], [str.lower], [str.isspace] and the regular-expression class
    [\d] are driven by the Unicode character database of the interpreter.
    The code is embedded over any such database; [lower_empty] records that
    lowering the empty string gives the empty string. *)

Class Unicode := {
  upper : str → str;
  lower : str → str;
  isspace : N → bool;
  isdecimal : N → bool;
  lower_empty : lower [] = []
}.

(** *** The database used for the examples

    Case mappings of Basic Latin and Latin-1 Supplement (U+0000..U+00FF),
    which on that range are per code point; code points above U+00FF are
    left unchanged by this table. White space and decimal digits are the
    full sets of Unicode 14. *)

Definition in_range (lo hi c : N) : bool := (lo <=? c) && (c <=? hi).

Definition upper_cp (c : N) : str :=
  if in_range 0x61 0x7A c then [c - 32]
  else if c =? 0xB5 then [0x39C]
  else if c =? 0xDF then [0x53; 0x53]
  else if in_range 0xE0 0xFE c && negb (c =? 0xF7) then [c - 32]
  else if c =? 0xFF then [0x178]
  else [c].

Definition lower_cp (c : N) : str :=
  if in_range 0x41 0x5A c then [c + 32]
  else if in_range 0xC0 0xDE c && negb (c =? 0xD7) then [c + 32]
  else [c].

Definition space_cps : list N :=
  [0x9; 0xA; 0xB; 0xC; 0xD; 0x1C; 0x1D; 0x1E; 0x1F; 0x20; 0x85; 0xA0;
   0x1680; 0x2000; 0x2001; 0x2002; 0x2003; 0x2004; 0x2005; 0x2006; 0x2007;
   0x2008; 0x2009; 0x200A; 0x2028; 0x2029; 0x202F; 0x205F; 0x3000].

Definition decimal_ranges : list (N * N) :=
  [(0x30, 0x39); (0x660, 0x669); (0x6F0, 0x6F9); (0x7C0, 0x7C9);
   (0x966, 0x96F); (0x9E6, 0x9EF); (0xA66, 0xA6F); (0xAE6, 0xAEF);
   (0xB66, 0xB6F); (0xBE6, 0xBEF); (0xC66, 0xC6F); (0xCE6, 0xCEF);
   (0xD66, 0xD6F); (0xDE6, 0xDEF); (0xE50, 0xE59); (0xED0, 0xED9);
   (0xF20, 0xF29); (0x1040, 0x1049); (0x1090, 0x1099); (0x17E0, 0x17E9);
   (0x1810, 0x1819); (0x1946, 0x194F); (0x19D0, 0x19D9); (0x1A80, 0x1A89);
   (0x1A90, 0x1A99); (0x1B50, 0x1B59); (0x1BB0, 0x1BB9); (0x1C40, 0x1C49);
   (0x1C50, 0x1C59); (0xA620, 0xA629); (0xA8D0, 0xA8D9); (0xA900, 0xA909);
   (0xA9D0, 0xA9D9); (0xA9F0, 0xA9F9); (0xAA50, 0xAA59); (0xABF0, 0xABF9);
   (0xFF10, 0xFF19); (0x104A0, 0x104A9); (0x10D30, 0x10D39);
   (0x11066, 0x1106F); (0x110F0, 0x110F9); (0x11136, 0x1113F);
   (0x111D0, 0x111D9); (0x112F0, 0x112F9); (0x11450, 0x11459);
   (0x114D0, 0x114D9); (0x11650, 0x11659); (0x116C0, 0x116C9);
   (0x11730, 0x11739); (0x118E0, 0x118E9); (0x11950, 0x11959);
   (0x11C50, 0x11C59); (0x11D50, 0x11D59); (0x11DA0, 0x11DA9);
   (0x16A60, 0x16A69); (0x16AC0, 0x16AC9); (0x16B50, 0x16B59);
   (0x1D7CE, 0x1D7FF); (0x1E140, 0x1E149); (0x1E2F0, 0x1E2F9);
   (0x1E950, 0x1E959); (0x1FBF0, 0x1FBF9)].

#[export] Instance ucd : Unicode := {|
  upper s := concat (upper_cp <$> s);
  lower s := concat (lower_cp <$> s);
  isspace c := bool_decide (c ∈ space_cps);
  isdecimal c := existsb (λ r, in_range r.1 r.2 c) decimal_ranges;
  lower_empty := eq_refl
|}.

(** ** Field normalizers *)

Section normalizers.
Context `{Unicode}.

(** The characters of the class [[\-’']]. *)
Definition is_delim (c : N) : bool :=
  (c =? 0x2D) || (c =? rsquo) || (c =? 0x27).

(** [re.split(r"([\-’'])", piece)], scanning left to right with the
    segment read so far: the capture group puts every delimiter in the
    result, as a string of its own, between the segments around it. *)
Fixpoint re_split_from (seg piece : str) : list str :=
  match piece with
  | [] => [seg]
  | c :: rest =>
      if is_delim c then seg :: [c] :: re_split_from [] rest
      else re_split_from (seg ++ [c]) rest
  end.

Definition re_split (piece : str) : list str := re_split_from [] piece.

(** [s[:1].upper() + s[1:].lower() if s else ""] *)
Definition cap_seg (s : str) : str :=
  if truthy s then upper (take 1 s) ++ lower (drop 1 s) else [].

(** [p in ["-", "’", "'"]] *)
Definition in_delims (p : str) : bool :=
  bool_decide (p ∈ [[0x2D]; [rsquo]; [0x27]]).

Definition smart_cap_piece (piece : str) : str :=
  if negb (truthy piece) then []
  else concat ((λ p, if in_delims p then p else cap_seg p) <$> re_split piece).

(** [str.strip()] with no argument. *)
Fixpoint lstrip (s : str) : str :=
  match s with
  | c :: rest => if isspace c then lstrip rest else s
  | [] => []
  end.

Definition rstrip (s : str) : str := reverse (lstrip (reverse s)).

Definition strip (s : str) : str := rstrip (lstrip s).

(** [str.split()] with no argument: the maximal runs of characters that
    are not white space, [tok] being the run read so far. *)
Fixpoint split_from (tok s : str) : list str :=
  match s with
  | [] => if truthy tok then [tok] else []
  | c :: rest =>
      if isspace c
      then (if truthy tok then tok :: split_from [] rest
            else split_from [] rest)
      else split_from (tok ++ [c]) rest
  end.

Definition split (s : str) : list str := split_from [] s.

(** [split()[0]] is only evaluated when the stripped name is not empty,
    and then [split] has a first token ([split_strip_head] below), so the
    [IndexError] branch is not part of the function. *)
Definition extract_first_name (name : str) : str :=
  if negb (truthy name) then []
  else
    let token :=
      if truthy (strip name)
      then match split (strip name) with t :: _ => t | [] => [] end
      else [] in
    smart_cap_piece token.

(** [re.sub(r"\D+", "", raw)] deletes every maximal run of characters
    outside [\d]. *)
Definition re_sub_nondigits (raw : str) : str := List.filter isdecimal raw.

(** [digits.startswith("1")] *)
Definition startswith_1 (digits : str) : bool :=
  match digits with c :: _ => c =? 0x31 | [] => false end.

Definition normalize_phone (raw : str) : str :=
  if negb (truthy raw) then []
  else
    let digits := re_sub_nondigits raw in
    if startswith_1 digits && (11 <=? length digits)%nat
    then drop 1 digits
    else digits.

End normalizers.

(** ** Frames

    A [pandas.DataFrame] with the default positional index: named columns
    in order, each a Series of cells, and the number of rows. The reader
    builds frames of string cells ([dtype=str, keep_default_na=False]) whose
    column names are distinct (pandas renames repeated headers). *)

Record DataFrame (A : Type) := {
  frame_cols : list (str * list A);
  frame_len : nat
}.
Arguments frame_cols {A} _.
Arguments frame_len {A} _.

(** [df.columns] and [len(df)] *)
Definition columns {A} (df : DataFrame A) : list str := (frame_cols df).*1.
Definition len {A} (df : DataFrame A) : nat := frame_len df.

(** The invariant of a frame: one Series per column name, all of the length
    of the index. *)
Definition frame_wf {A} (df : DataFrame A) : Prop :=
  NoDup (columns df) ∧ Forall (λ p, length p.2 = len df) (frame_cols df).

Fixpoint assoc {A} (c : str) (l : list (str * A)) : option A :=
  match l with
  | [] => None
  | (k, v) :: l' => if decide (k = c) then Some v else assoc c l'
  end.

(** [df[c]]; [None] is the [KeyError] of an absent column. *)
Definition getitem {A} (df : DataFrame A) (c : str) : option (list A) :=
  assoc c (frame_cols df).

(** [df.iloc[i]], the cells of row [i] in column order; [None] is the
    [IndexError] of a row out of range. *)
Definition iloc {A} (df : DataFrame A) (i : nat) : option (list A) :=
  if bool_decide (i < len df)%nat then mapM (λ p, p.2 !! i) (frame_cols df)
  else None.

(** [df.iloc[k:].reset_index(drop=True)] *)
Definition iloc_from {A} (k : nat) (df : DataFrame A) : DataFrame A :=
  {| frame_cols := prod_map id (drop k) <$> frame_cols df;
     frame_len := len df - k |}.

(** [pd.DataFrame({name: series, ...})]: the columns in the order of the
    dict; the index is the union of the positional indexes of the Series.
    Series of one length, as [clean] passes, are taken as they are. *)
Definition pd_DataFrame {A} (items : list (str * list A)) : DataFrame A :=
  {| frame_cols := items; frame_len := max_list (length <$> items.*2) |}.

(** [pd.concat(frames, ignore_index=True)]: [None] is the [ValueError] of an
    empty list. The columns are those of the frames in order of first
    appearance; a frame without a column contributes missing cells (NaN),
    here [None]. *)
Definition union_columns {A} (frames : list (DataFrame A)) : list str :=
  foldl (λ acc df, acc ++ list_difference (columns df) acc) [] frames.

Definition concat_cells {A} (c : str) (df : DataFrame A) : list (option A) :=
  match getitem df c with
  | Some s => Some <$> s
  | None => replicate (len df) None
  end.

Definition pd_concat {A} (frames : list (DataFrame A))
  : option (DataFrame (option A)) :=
  match frames with
  | [] => None
  | _ :: _ =>
      Some {| frame_cols :=
                (λ c, (c, concat (concat_cells c <$> frames)))
                  <$> union_columns frames;
              frame_len := sum_list (len <$> frames) |}
  end.

(** ** The cleaner *)

Definition EXPECTED : list str :=
  [lit "First Name"; lit "Last Name"; lit "Email"; lit "Phone"; lit "Status"].

(** A Python value that is either a Series or a string, as [first], [last],
    [email] and [phone] are in [clean]. *)
Inductive value :=
  | Series (s : list str)
  | Str (s : str).

(** [v if isinstance(v, pd.Series) else pd.Series([""] * n)] *)
Definition series_or_blank (v : value) (n : nat) : list str :=
  match v with
  | Series s => s
  | Str _ => replicate n []
  end.

(** [row.replace("", pd.NA).isna().all()] on a row of string cells: each
    empty cell becomes NA, here [None]. *)
Definition replace_empty_NA (row : list str) : list (option str) :=
  (λ x, if truthy x then Some x else None) <$> row.

Definition isna_all (row : list (option str)) : bool :=
  forallb (λ x, bool_decide (x = None)) row.

Section clean.
Context `{Unicode}.

(** [{c.lower(): c for c in df.columns}]: later columns overwrite earlier
    ones under the same key. *)
Definition lower_dict (cs : list str) : gmap str str :=
  foldl (λ m c, <[lower c := c]> m) ∅ cs.

(** Lines 59-73 of [clean]: the frame [out] before the first row is
    examined. [None] is an exception of a lookup. *)
Definition project (df : DataFrame str) : option (DataFrame str) :=
  let cols := lower_dict (columns df) in
  first ← (if bool_decide (is_Some (cols !! lit "name"))
           then c ← cols !! lit "name"; s ← getitem df c;
                Some (Series (extract_first_name <$> s))
           else Some (Str []));
  last ← (if bool_decide (is_Some (cols !! lit "address"))
          then c ← cols !! lit "address"; s ← getitem df c;
               Some (Series s)
          else Some (Str []));
  let email_src := py_or (cols !! lit "email_address") (cols !! lit "email") in
  email ← (if truthy_opt email_src
           then c ← email_src; s ← getitem df c;
                Some (Series (lower <$> (strip <$> s)))
           else Some (Str []));
  let phone_src := py_or (cols !! lit "phone_number") (cols !! lit "phone") in
  phone ← (if truthy_opt phone_src
           then c ← phone_src; s ← getitem df c;
                Some (Series (normalize_phone <$> s))
           else Some (Str []));
  Some (pd_DataFrame
          [(lit "First Name", series_or_blank first (len df));
           (lit "Last Name", series_or_blank last (len df));
           (lit "Email", series_or_blank email (len df));
           (lit "Phone", series_or_blank phone (len df));
           (lit "Status", replicate (len df) [])]).

(** Lines 75-78 of [clean]: drop the first row if all its cells are
    empty. *)
Definition prune (out : DataFrame str) : option (DataFrame str) :=
  if bool_decide (len out ≠ 0%nat) then
    row ← iloc out 0;
    if isna_all (replace_empty_NA row) then Some (iloc_from 1 out)
    else Some out
  else Some out.

Definition clean (df : DataFrame str) : option (DataFrame str) :=
  out ← project df; prune out.

(** The column each role reads, as [clean] decides it: the guards of
    [first], [last], [email] and [phone]. *)
Record ColumnRoleMap := {
  role_name : option str;
  role_last_name_source : option str;
  role_email : option str;
  role_phone : option str
}.

Definition src_if_truthy (src : option str) : option str :=
  if truthy_opt src then src else None.

Definition resolve (cs : list str) : ColumnRoleMap :=
  let cols := lower_dict cs in
  {| role_name := cols !! lit "name";
     role_last_name_source := cols !! lit "address";
     role_email :=
       src_if_truthy (py_or (cols !! lit "email_address") (cols !! lit "email"));
     role_phone :=
       src_if_truthy (py_or (cols !! lit "phone_number") (cols !! lit "phone")) |}.

End clean.

(** ** The encoding-tolerant reader

    The uploaded file is a byte buffer with a read position. The operations
    performed on it are recorded in [trace], in order, so that the order of
    the attempts and of the resets can be stated. *)

Inductive encoding := utf_8 | utf_8_sig | latin_1.

Inductive event :=
  | Read (enc : option encoding) (at_pos : nat)
  | Seek (pos : nat).

Record file := {
  content : list N;
  position : nat;
  trace : list event
}.

Section reader.
Context {exn : Type}.

(** [pd.read_csv(file, dtype=str, keep_default_na=False, na_values=[],
    encoding=enc)] of pandas, on the bytes of the buffer from a position:
    a frame or the exception raised, and the position the parser leaves
    the buffer at. [None] is the call without [encoding]. *)
Variable read_csv :
  option encoding → list N → nat → (exn + DataFrame str) * nat.

Definition pd_read_csv (enc : option encoding) (f : file)
  : (exn + DataFrame str) * file :=
  let '(r, p) := read_csv enc (content f) (position f) in
  (r, {| content := content f; position := p;
         trace := trace f ++ [Read enc (position f)] |}).

(** [file.seek(p)] *)
Definition seek (p : nat) (f : file) : file :=
  {| content := content f; position := p; trace := trace f ++ [Seek p] |}.

(** The [for enc in [...]] loop: [Some df] when an iteration returns,
    [None] when the loop runs to its end. *)
Fixpoint try_encodings (encs : list encoding) (f : file)
  : option (DataFrame str) * file :=
  match encs with
  | [] => (None, f)
  | enc :: rest =>
      match pd_read_csv (Some enc) f with
      | (inr df, f') => (Some df, f')
      | (inl _, f') => try_encodings rest (seek 0 f')
      end
  end.

Definition load_csv_any (f : file) : (exn + DataFrame str) * file :=
  match try_encodings [utf_8; utf_8_sig; latin_1] f with
  | (Some df, f') => (inr df, f')
  | (None, f') => pd_read_csv None (seek 0 f')
  end.

End reader.

(** ** The upload loop

    Lines 86-111 of the script: the files returned by [st.file_uploader]
    are processed in order. The calls to Streamlit are recorded as the list
    of calls made; an exception that leaves the script ends the run with
    the calls made so far. *)

Record upload := {
  up_name : str;
  up_file : file
}.

Inductive st_call :=
  | st_write (text : str)
  | st_dataframe (df : DataFrame str)
  | st_download_button (label : str) (data : list N) (file_name mime : str)
  | st_markdown.

(** How a run ends: at the end of the script, or with an exception, either
    one raised by pandas while reading or writing, or a lookup error of
    [clean]. *)
Inductive outcome (exn : Type) :=
  | Completed
  | Exception (e : exn)
  | LookupError.
Arguments Completed {exn}.
Arguments Exception {exn} e.
Arguments LookupError {exn}.

(** [str(n)] of a length: its decimal digits. *)
Fixpoint uint_digits (u : Decimal.uint) : str :=
  match u with
  | Decimal.Nil => []
  | Decimal.D0 u => 0x30 :: uint_digits u
  | Decimal.D1 u => 0x31 :: uint_digits u
  | Decimal.D2 u => 0x32 :: uint_digits u
  | Decimal.D3 u => 0x33 :: uint_digits u
  | Decimal.D4 u => 0x34 :: uint_digits u
  | Decimal.D5 u => 0x35 :: uint_digits u
  | Decimal.D6 u => 0x36 :: uint_digits u
  | Decimal.D7 u => 0x37 :: uint_digits u
  | Decimal.D8 u => 0x38 :: uint_digits u
  | Decimal.D9 u => 0x39 :: uint_digits u
  end.

Definition str_of_nat (n : nat) : str := uint_digits (Nat.to_uint n).

(** [f"File: {f.name} — Rows read: {len(df_in)}, Rows output:
    {len(cleaned)}"], with the dash U+2014. *)
Definition rows_text (name : str) (rows_read rows_output : nat) : str :=
  lit "File: " ++ name ++ lit " " ++ [0x2014] ++ lit " Rows read: "
  ++ str_of_nat rows_read ++ lit ", Rows output: " ++ str_of_nat rows_output.

(** The arrow U+2B07 U+FE0F that starts both labels. *)
Definition down_arrow : str := [0x2B07; 0xFE0F].

(** [df.head(k)] *)
Definition head {A} (k : nat) (df : DataFrame A) : DataFrame A :=
  {| frame_cols := prod_map id (take k) <$> frame_cols df;
     frame_len := Nat.min k (len df) |}.

(** A frame of strings as pandas sees it, a frame none of whose cells is
    missing. *)
Definition present {A} (df : DataFrame A) : DataFrame (option A) :=
  {| frame_cols := (λ p : str * list A, (p.1, Some <$> p.2)) <$> frame_cols df;
     frame_len := len df |}.

Section script.
Context `{Unicode} {exn : Type}.

Variable read_csv :
  option encoding → list N → nat → (exn + DataFrame str) * nat.

(** [df.to_csv(b, index=False, encoding="utf-8")] of pandas followed by
    [b.getvalue()]: the bytes written, or the exception raised. *)
Variable to_csv : DataFrame (option str) → exn + list N.

(** [name] is not used. *)
Definition to_csv_bytes (df : DataFrame (option str)) (name : str)
  : exn + list N :=
  to_csv df.

(** The body of the loop for one file: the calls made, and the cleaned
    frame or the exception that ends the run. *)
Definition process_file (f : upload)
  : list st_call * (outcome exn + DataFrame str) :=
  match (load_csv_any read_csv (up_file f)).1 with
  | inl e => ([], inl (Exception e))
  | inr df_in =>
      match clean df_in with
      | None => ([], inl LookupError)
      | Some cleaned =>
          let shown :=
            [st_write (rows_text (up_name f) (len df_in) (len cleaned));
             st_dataframe (head 20 cleaned)] in
          match to_csv_bytes (present cleaned) (up_name f) with
          | inl e => (shown, inl (Exception e))
          | inr csv_bytes =>
              (shown ++
               [st_download_button
                  (down_arrow ++ lit " Download cleaned: hatch_cleaned_"
                   ++ up_name f)
                  csv_bytes
                  (lit "hatch_cleaned_" ++ up_name f)
                  (lit "text/csv")],
               inr cleaned)
          end
      end
  end.

(** [for f in uploaded], with [cleaned_list] as it stands. *)
Fixpoint for_uploaded (fs : list upload) (cleaned_list : list (DataFrame str))
  : list st_call * (outcome exn + list (DataFrame str)) :=
  match fs with
  | [] => ([], inr cleaned_list)
  | f :: rest =>
      match process_file f with
      | (calls, inl o) => (calls, inl o)
      | (calls, inr cleaned) =>
          let '(calls', r) := for_uploaded rest (cleaned_list ++ [cleaned]) in
          (calls ++ calls', r)
      end
  end.

(** [if uploaded: ... else: st.markdown(...)] *)
Definition main (uploaded : list upload) : list st_call * outcome exn :=
  match uploaded with
  | [] => ([st_markdown], Completed)
  | _ :: _ =>
      match for_uploaded uploaded [] with
      | (calls, inl o) => (calls, o)
      | (calls, inr cleaned_list) =>
          if bool_decide (1 < length cleaned_list)%nat then
            match pd_concat cleaned_list with
            | None => (calls, LookupError)
            | Some merged =>
                match to_csv_bytes merged (lit "merged.csv") with
                | inl e => (calls, Exception e)
                | inr csv_bytes =>
                    (calls ++
                     [st_download_button
                        (down_arrow
                         ++ lit " Download merged: hatch_cleaned_merged.csv")
                        csv_bytes
                        (lit "hatch_cleaned_merged.csv")
                        (lit "text/csv")],
                     Completed)
                end
            end
          else (calls, Completed)
      end
  end.

End script.

(** ** Vocabulary of the statements *)


Definition no_delim (s : str) : Prop := Forall (λ c, is_delim c = false) s.


(** The phone rule in the words of the specification, for a given notion of
    digit: keep the digits, then drop a leading [1] of a string of at least
    eleven. *)
Definition phone_rule (is_digit : N → bool) (raw : str) : str :=
  let digits := List.filter is_digit raw in
  if startswith_1 digits && (11 <=? length digits)%nat then drop 1 digits
  else digits.

(** The ASCII digits [0-9]. *)
Definition is_ascii_digit (c : N) : bool := in_range 0x30 0x39 c.

Definition is_ascii (c : N) : bool := c <? 0x80.

(** The code points on which capitalizing twice is compared with
    capitalizing once: U+0000..U+00FF without U+00DF (sharp s), and
    U+2019. *)
Definition latin1_plain (c : N) : bool :=
  ((c <? 0x100) && negb (c =? 0xDF)) || (c =? rsquo).

(** The cell of column [c] in row [i]. *)
Definition cell {A} (df : DataFrame A) (c : str) (i : nat) : option A :=
  s ← getitem df c; s !! i.

(** The value [v] of an output field in row [i]: [f] of the cell of the
    source column, or the empty string when the role has no column. *)
Definition field_of (df : DataFrame str) (src : option str) (f : str → str)
    (i : nat) (v : str) : Prop :=
  match src with
  | Some c => ∃ x, cell df c i = Some x ∧ v = f x
  | None => v = []
  end.



(** What [smart_cap_piece] does to one element of the split. *)
Abbreviation cap_piece := (λ p : str, if in_delims p then p else cap_seg p).

(** The Series [s] of an output field: [f] of every cell of the source
    column, or empty strings when the role has no column. *)
Definition column_of (df : DataFrame str) (src : option str) (f : str → str)
    (s : list str) : Prop :=
  match src with
  | Some c => ∃ col, getitem df c = Some col ∧ s = f <$> col
  | None => s = replicate (len df) []
  end.

(** The frame built at the end of [project], from its five Series. *)
Definition out5 (first last email phone status : list str) : DataFrame str :=
  pd_DataFrame
    [(lit "First Name", first); (lit "Last Name", last); (lit "Email", email);
     (lit "Phone", phone); (lit "Status", status)].

(** The value bound to [first], [last], [email] or [phone]. *)
Definition role_series (df : DataFrame str) (src : option str) (f : str → str)
  : option value :=
  match src with
  | Some c => s ← getitem df c; Some (Series (f <$> s))
  | None => Some (Str [])
  end.

(** The example of the specification: one row under the headers [Name],
    [Address], [Email_Address], [Phone_Number]. *)
Definition vendor_row : DataFrame str :=
  {| frame_cols :=
       [(lit "Name", [lit "Mary-Anne O'Brien"]);
        (lit "Address", [lit "Smith"]);
        (lit "Email_Address", [lit " A@B.COM "]);
        (lit "Phone_Number", [lit "1-555-123-4567"])];
     frame_len := 1 |}.

(** Blank rows at the start, inside and at the end of a file. *)
Definition blank_rows : DataFrame str :=
  {| frame_cols := [(lit "Name", [[]; []; lit "ann lee"; []])];
     frame_len := 4 |}.

(** Two headers that differ in case only, and both spellings of the email
    header. *)
Definition two_emails : DataFrame str :=
  {| frame_cols :=
       [(lit "Email", [lit "left@x.org"]); (lit "EMAIL", [lit "Right@X.org"])];
     frame_len := 1 |}.


(** The case mappings of one code point, where they give one code
    point. *)
Definition upper1 (c : N) : N :=
  match upper_cp c with [u] => u | _ => c end.

Definition lower1 (c : N) : N :=
  match lower_cp c with [l] => l | _ => c end.

(** One pass over a token: a character at the start or right after a
    delimiter is uppercased, every other one lowercased. *)
Fixpoint cap_scan (start : bool) (t : str) : str :=
  match t with
  | [] => []
  | c :: r => (if start then upper1 c else lower1 c) :: cap_scan (is_delim c) r
  end.

(** What the one-pass reading uses of a code point: each case mapping
    gives one code point, and a delimiter is its own image. *)
Definition cp_single (c : N) : bool :=
  bool_decide (upper_cp c = [upper1 c]) && bool_decide (lower_cp c = [lower1 c])
  && implb (is_delim c)
       (bool_decide (upper1 c = c) && bool_decide (lower1 c = c)).

(** Lowercasing after either case mapping is lowercasing. *)
Definition cp_lower_absorbs (c : N) : bool :=
  bool_decide (lower_cp (upper1 c) = lower_cp c)
  && bool_decide (lower_cp (lower1 c) = lower_cp c).

(** ASCII characters and U+2019. *)
Definition ascii_or_rsquo (c : N) : bool := is_ascii c || (c =? rsquo).

(** The [file_name] of every download offered, in order. *)
Definition download_names (calls : list st_call) : list str :=
  omap (λ c, match c with
             | st_download_button _ _ file_name _ => Some file_name
             | _ => None
             end) calls.

(** A parser that fails on every input, and one that returns a one-row
    frame; a writer that returns no bytes. *)
Definition never_parses
  : option encoding → list N → nat → (nat + DataFrame str) * nat :=
  λ enc _ _, (inl (match enc with Some _ => 1 | None => 2 end)%nat, 0%nat).

Definition parses_vendor_row
  : option encoding → list N → nat → (nat + DataFrame str) * nat :=
  λ _ _ _, (inr vendor_row, 0%nat).

Definition writes_nothing : DataFrame (option str) → nat + list N :=
  λ _, inr [].

Definition some_upload (name : string) : upload :=
  {| up_name := lit name;
     up_file := {| content := []; position := 0; trace := [] |} |}.

(** * Properties *)

(** ** Strings *)

Lemma truthy_true (s : str) : truthy s = true ↔ s ≠ [].
Proof. destruct s; simpl; split; congruence. Qed.


(** ** [smart_cap_piece] *)

Section smart_cap.
Context `{Unicode}.



Lemma in_delims_no_delim (s : str) : no_delim s → in_delims s = false.
Proof.
  intros Hs. unfold in_delims. apply bool_decide_eq_false.
  rewrite !elem_of_cons, elem_of_nil.
  intros [->|[->|[->|[]]]]; apply Forall_cons in Hs as [Hc _];
    vm_compute in Hc; discriminate.
Qed.

Lemma in_delims_delim (d : N) : is_delim d = true → in_delims [d] = true.
Proof.
  unfold is_delim, in_delims. rewrite !orb_true_iff, !N.eqb_eq.
  intros Hd. apply bool_decide_eq_true. rewrite !elem_of_cons.
  destruct Hd as [[->| ->]| ->]; auto.
Qed.




End smart_cap.



(** ** [normalize_phone] *)

Lemma forall_below (n : nat) (P : N → bool) :
  forallb (λ k, P (N.of_nat k)) (seq 0 n) = true →
  ∀ c, c < N.of_nat n → P c = true.
Proof.
  intros Hall c Hc. rewrite forallb_forall in Hall.
  specialize (Hall (N.to_nat c)). rewrite N2Nat.id in Hall.
  apply Hall, in_seq. lia.
Qed.

Lemma isdecimal_ascii (c : N) :
  is_ascii c = true → isdecimal c = is_ascii_digit c.
Proof.
  intros Hc. apply N.ltb_lt in Hc. apply eqb_prop.
  revert c Hc. change 0x80 with (N.of_nat 128).
  apply (forall_below 128 (λ c, eqb (isdecimal c) (is_ascii_digit c))).
  vm_compute. reflexivity.
Qed.

Lemma normalize_phone_rule `{Unicode} (raw : str) :
  normalize_phone raw = phone_rule isdecimal raw.
Proof.
  unfold normalize_phone, phone_rule, re_sub_nondigits.
  destruct raw; [done|]. reflexivity.
Qed.

(** C4, as stated: the digits kept are the ASCII digits. The Arabic-Indic
    digit three (U+0663) is in [\d] and is kept. *)
Lemma normalize_phone_keeps_arabic_indic_digit :
  normalize_phone [0x663] ≠ phone_rule is_ascii_digit [0x663].
Proof. vm_compute. discriminate. Qed.

(** C4, amended. [normalize_phone] keeps the characters of the class [\d],
    the decimal digits of the Unicode database, and drops a leading [1]
    from a result of length at least eleven; on ASCII input these are the
    digits [0-9]; the three examples of the specification hold. *)
Theorem normalize_phone_decimal_digits :
  (∀ (U : Unicode) (raw : str), normalize_phone raw = phone_rule isdecimal raw)
  ∧ (∀ raw : str, forallb is_ascii raw = true →
       normalize_phone raw = phone_rule is_ascii_digit raw)
  ∧ normalize_phone (lit "+1 (555) 123-4567") = lit "5551234567"
  ∧ normalize_phone (lit "5551234567") = lit "5551234567"
  ∧ normalize_phone [] = [].
Proof.
  split; [|split].
  - intros U raw. apply normalize_phone_rule.
  - intros raw Hraw. rewrite normalize_phone_rule. unfold phone_rule.
    rewrite forallb_forall in Hraw.
    rewrite (filter_ext_in isdecimal is_ascii_digit raw); [done|].
    intros c Hc. apply isdecimal_ascii. auto.
  - repeat split; vm_compute; reflexivity.
Qed.

Lemma normalize_phone_decimal_digits_witness :
  forallb is_ascii (lit "1-555-123-4567") = true
  ∧ normalize_phone (lit "1-555-123-4567")
    = phone_rule is_ascii_digit (lit "1-555-123-4567").
Proof.
  split; [reflexivity|].
  apply (proj1 (proj2 normalize_phone_decimal_digits)). reflexivity.
Defined.

(** ** Capitalizing twice *)









(** ** Frames *)

Lemma assoc_Some {A} (c : str) (l : list (str * A)) :
  c ∈ l.*1 → is_Some (assoc c l).
Proof.
  induction l as [|[k v] l IH]; simpl.
  - by intros ?%elem_of_nil.
  - intros Hin. case_decide as Hk; [by eexists|].
    apply elem_of_cons in Hin as [Heq|Hin]; [by destruct Hk|auto].
Qed.

Lemma assoc_elem_of {A} (c : str) (l : list (str * A)) (v : A) :
  assoc c l = Some v → (c, v) ∈ l.
Proof.
  induction l as [|[k x] l IH]; simpl; [done|].
  case_decide as Hk.
  - intros [= ->]. subst. by left.
  - intros Hv. right. auto.
Qed.

Lemma getitem_columns {A} (df : DataFrame A) (c : str) :
  c ∈ columns df → is_Some (getitem df c).
Proof. apply assoc_Some. Qed.

Lemma getitem_length {A} (df : DataFrame A) (c : str) (s : list A) :
  frame_wf df → getitem df c = Some s → length s = len df.
Proof.
  intros [_ Hlen] Hs. apply assoc_elem_of in Hs.
  rewrite Forall_forall in Hlen. apply (Hlen _ Hs).
Qed.



Lemma getitem_iloc_from {A} (df : DataFrame A) (c : str) :
  getitem (iloc_from 1 df) c = drop 1 <$> getitem df c.
Proof.
  unfold getitem, iloc_from. cbn [frame_cols].
  induction (frame_cols df) as [|[k s] l IH]; [done|]. csimpl.
  case_decide; [done|]. exact IH.
Qed.

Lemma columns_iloc_from {A} (df : DataFrame A) :
  columns (iloc_from 1 df) = columns df.
Proof.
  unfold columns, iloc_from. cbn [frame_cols].
  induction (frame_cols df) as [|[k s] l IH]; [done|]. csimpl. by f_equal.
Qed.

Lemma len_out5 (n : nat) (a b c d e : list str) :
  length a = n → length b = n → length c = n → length d = n → length e = n →
  len (out5 a b c d e) = n.
Proof. intros. unfold len, out5, pd_DataFrame. simpl. lia. Qed.

Lemma iloc_out5 (n i : nat) (a b c d e : list str) (va vb vc vd ve : str) :
  len (out5 a b c d e) = n → (i < n)%nat →
  a !! i = Some va → b !! i = Some vb → c !! i = Some vc →
  d !! i = Some vd → e !! i = Some ve →
  iloc (out5 a b c d e) i = Some [va; vb; vc; vd; ve].
Proof.
  intros Hn Hi Ha Hb Hc Hd He. unfold iloc. rewrite Hn.
  rewrite bool_decide_eq_true_2 by done.
  unfold out5, pd_DataFrame. csimpl. rewrite Ha, Hb, Hc, Hd, He. done.
Qed.

(** ** The resolver *)

Section resolver.
Context `{Unicode}.

Lemma lower_dict_snoc (cs : list str) (c : str) :
  lower_dict (cs ++ [c]) = <[lower c := c]> (lower_dict cs).
Proof. unfold lower_dict. by rewrite foldl_app. Qed.

Lemma lower_dict_Some (cs : list str) (k c : str) :
  lower_dict cs !! k = Some c → c ∈ cs ∧ lower c = k.
Proof.
  induction cs as [|c' cs IH] using rev_ind; [done|].
  rewrite lower_dict_snoc, lookup_insert. case_decide as Hk.
  - intros [= ->]. split; [|done]. apply elem_of_app. right. by left.
  - intros [Hin Hl]%IH. split; [|done]. apply elem_of_app. by left.
Qed.







Lemma src_or_elem_of (cs : list str) (k1 k2 c : str) :
  src_if_truthy (py_or (lower_dict cs !! k1) (lower_dict cs !! k2)) = Some c →
  c ∈ cs.
Proof.
  unfold src_if_truthy, py_or.
  destruct (truthy_opt (lower_dict cs !! k1)) eqn:E1.
  - rewrite E1. intros Hc. by apply lower_dict_Some in Hc as [? _].
  - destruct (truthy_opt (lower_dict cs !! k2)); [|done].
    intros Hc. by apply lower_dict_Some in Hc as [? _].
Qed.

End resolver.

(** ** The projector *)

Section projector.
Context `{Unicode}.

Lemma guard_in (o : option str) (F : str → option value) (D : option value) :
  (if bool_decide (is_Some o) then c ← o; F c else D)
  = match o with Some c => F c | None => D end.
Proof.
  destruct o as [c|].
  - rewrite bool_decide_eq_true_2; [done|by eexists].
  - rewrite bool_decide_eq_false_2; [done|]. by intros [? ?].
Qed.

Lemma guard_truthy (o : option str) (F : str → option value)
    (D : option value) :
  (if truthy_opt o then c ← o; F c else D)
  = match src_if_truthy o with Some c => F c | None => D end.
Proof.
  unfold src_if_truthy. destruct (truthy_opt o) eqn:E; [|done].
  destruct o; [done|discriminate].
Qed.

(** [project] reads each role's column as [resolve] names it. *)
Lemma project_roles (df : DataFrame str) :
  let r := resolve (columns df) in
  project df =
    first ← role_series df (role_name r) extract_first_name;
    last ← role_series df (role_last_name_source r) id;
    email ← role_series df (role_email r) (λ x, lower (strip x));
    phone ← role_series df (role_phone r) normalize_phone;
    Some (out5 (series_or_blank first (len df))
               (series_or_blank last (len df))
               (series_or_blank email (len df))
               (series_or_blank phone (len df))
               (replicate (len df) [])).
Proof.
  unfold project, role_series, resolve. cbn [role_name
    role_last_name_source role_email role_phone].
  rewrite !guard_in, !guard_truthy.
  generalize (lower_dict (columns df) !! lit "name").
  generalize (lower_dict (columns df) !! lit "address").
  generalize (src_if_truthy
    (py_or (lower_dict (columns df) !! lit "email_address")
           (lower_dict (columns df) !! lit "email"))).
  generalize (src_if_truthy
    (py_or (lower_dict (columns df) !! lit "phone_number")
           (lower_dict (columns df) !! lit "phone"))).
  intros [c4|] [c3|] [c2|] [c1|]; csimpl;
    repeat (match goal with
            | |- context [getitem df ?c] => destruct (getitem df c)
            end; csimpl);
    rewrite ?list_fmap_id, <- ?list_fmap_compose; done.
Qed.

Lemma role_series_column (df : DataFrame str) (src : option str)
    (f : str → str) :
  (∀ c, src = Some c → c ∈ columns df) →
  ∃ v, role_series df src f = Some v
       ∧ column_of df src f (series_or_blank v (len df)).
Proof.
  intros Hsrc. destruct src as [c|]; simpl.
  - destruct (getitem_columns df c (Hsrc c eq_refl)) as [s Hs].
    rewrite Hs. simpl. eauto.
  - eauto.
Qed.

Lemma roles_in_columns (cs : list str) :
  let r := resolve cs in
  (∀ c, role_name r = Some c → c ∈ cs)
  ∧ (∀ c, role_last_name_source r = Some c → c ∈ cs)
  ∧ (∀ c, role_email r = Some c → c ∈ cs)
  ∧ (∀ c, role_phone r = Some c → c ∈ cs).
Proof.
  simpl. repeat split; intros c Hc.
  - by apply lower_dict_Some in Hc as [? _].
  - by apply lower_dict_Some in Hc as [? _].
  - by apply src_or_elem_of in Hc.
  - by apply src_or_elem_of in Hc.
Qed.

(** The frame [project] builds, column by column. *)
Lemma project_columns (df : DataFrame str) :
  let r := resolve (columns df) in
  ∃ a b c d,
    project df = Some (out5 a b c d (replicate (len df) []))
    ∧ column_of df (role_name r) extract_first_name a
    ∧ column_of df (role_last_name_source r) id b
    ∧ column_of df (role_email r) (λ x, lower (strip x)) c
    ∧ column_of df (role_phone r) normalize_phone d.
Proof.
  intros r. rewrite project_roles. fold r.
  destruct (roles_in_columns (columns df)) as (Hn & Hl & He & Hp).
  destruct (role_series_column df (role_name r) extract_first_name Hn)
    as (a & -> & Ha).
  destruct (role_series_column df (role_last_name_source r) id Hl)
    as (b & -> & Hb).
  destruct (role_series_column df (role_email r) (λ x, lower (strip x)) He)
    as (c & -> & Hc).
  destruct (role_series_column df (role_phone r) normalize_phone Hp)
    as (d & -> & Hd).
  simpl. eauto 10.
Qed.

Lemma column_of_length (df : DataFrame str) (src : option str)
    (f : str → str) (s : list str) :
  frame_wf df → column_of df src f s → length s = len df.
Proof.
  intros Hwf. destruct src as [c|]; simpl.
  - intros (col & Hcol & ->). rewrite length_fmap.
    by apply (getitem_length df c).
  - intros ->. apply length_replicate.
Qed.

Lemma column_of_field (df : DataFrame str) (src : option str)
    (f : str → str) (s : list str) (i : nat) :
  frame_wf df → column_of df src f s → (i < len df)%nat →
  ∃ v, s !! i = Some v ∧ field_of df src f i v.
Proof.
  intros Hwf Hs Hi. destruct src as [c|]; simpl in *.
  - destruct Hs as (col & Hcol & ->).
    pose proof (getitem_length df c col Hwf Hcol) as Hlen.
    destruct (lookup_lt_is_Some_2 col i) as [x Hx]; [lia|].
    exists (f x). rewrite list_lookup_fmap, Hx. split; [done|].
    exists x. unfold cell. rewrite Hcol. done.
  - subst s. exists []. split; [|done]. by apply lookup_replicate_2.
Qed.

Lemma project_len (df : DataFrame str) (out : DataFrame str) :
  frame_wf df → project df = Some out → len out = len df.
Proof.
  intros Hwf Hout.
  destruct (project_columns df) as (a & b & c & d & Hp & Ha & Hb & Hc & Hd).
  rewrite Hp in Hout. injection Hout as <-.
  apply len_out5; eauto using column_of_length, length_replicate.
Qed.

(** The rows of the frame [project] builds. *)
Lemma project_rows (df : DataFrame str) :
  frame_wf df →
  let r := resolve (columns df) in
  ∃ out, project df = Some out ∧ len out = len df ∧ columns out = EXPECTED
    ∧ ∀ i, (i < len df)%nat →
        ∃ fn ln em ph,
          iloc out i = Some [fn; ln; em; ph; []]
          ∧ field_of df (role_name r) extract_first_name i fn
          ∧ field_of df (role_last_name_source r) id i ln
          ∧ field_of df (role_email r) (λ x, lower (strip x)) i em
          ∧ field_of df (role_phone r) normalize_phone i ph.
Proof.
  intros Hwf r.
  destruct (project_columns df) as (a & b & c & d & Hp & Ha & Hb & Hc & Hd).
  fold r in Ha, Hb, Hc, Hd.
  assert (Hlen : len (out5 a b c d (replicate (len df) [])) = len df).
  { apply len_out5; eauto using column_of_length, length_replicate. }
  eexists. split; [exact Hp|]. split; [exact Hlen|]. split; [done|].
  intros i Hi.
  destruct (column_of_field df _ _ a i Hwf Ha Hi) as (fn & Hfn & Ffn).
  destruct (column_of_field df _ _ b i Hwf Hb Hi) as (ln & Hln & Fln).
  destruct (column_of_field df _ _ c i Hwf Hc Hi) as (em & Hem & Fem).
  destruct (column_of_field df _ _ d i Hwf Hd Hi) as (ph & Hph & Fph).
  exists fn, ln, em, ph. split; [|done].
  apply (iloc_out5 (len df)); try done. by apply lookup_replicate_2.
Qed.

(** The two outcomes of the test on the first row. *)
Lemma prune_cases (out : DataFrame str) :
  (len out ≠ 0%nat → ∀ row, iloc out 0 = Some row →
     Forall (λ x, x = []) row → prune out = Some (iloc_from 1 out))
  ∧ (len out ≠ 0%nat → ∀ row, iloc out 0 = Some row →
     ¬ Forall (λ x, x = []) row → prune out = Some out)
  ∧ (len out = 0%nat → prune out = Some out).
Proof.
  assert (Hall : ∀ row, isna_all (replace_empty_NA row) = true
                        ↔ Forall (λ x : str, x = []) row).
  { induction row as [|x row IH]; simpl; [by split; [constructor|]|].
    rewrite andb_true_iff, Forall_cons, <- IH, bool_decide_eq_true.
    destruct x; simpl; split; intros [? ?]; done. }
  unfold prune. repeat split.
  - intros Hn row Hrow Hempty. rewrite bool_decide_eq_true_2 by done.
    rewrite Hrow. simpl. apply Hall in Hempty. by rewrite Hempty.
  - intros Hn row Hrow Hdata. rewrite bool_decide_eq_true_2 by done.
    rewrite Hrow. simpl. destruct (isna_all _) eqn:E; [|done].
    by apply Hall in E.
  - intros Hn. rewrite bool_decide_eq_false_2; [done|]. by intros ?.
Qed.

Lemma clean_total (df : DataFrame str) :
  frame_wf df →
  ∃ out, project df = Some out
    ∧ (clean df = Some out ∨ clean df = Some (iloc_from 1 out)).
Proof.
  intros Hwf. destruct (project_rows df Hwf) as (out & Hp & Hlen & _ & Hrows).
  exists out. split; [done|]. unfold clean. rewrite Hp. simpl.
  destruct (prune_cases out) as (Hdrop & Hkeep & Hnone).
  destruct (decide (len out = 0%nat)) as [Hz|Hnz]; [left; auto|].
  destruct (Hrows 0%nat ltac:(lia)) as (fn & ln & em & ph & Hrow & _).
  destruct (decide (Forall (λ x, x = []) [fn; ln; em; ph; []])).
  - right. eapply Hdrop; eauto.
  - left. eapply Hkeep; eauto.
Qed.

End projector.

Lemma frame_wf_vendor_row : frame_wf vendor_row.
Proof.
  split.
  - refine (bool_decide_unpack _ _). vm_compute. exact I.
  - repeat constructor.
Qed.



Lemma frame_wf_blank_rows : frame_wf blank_rows.
Proof.
  split.
  - refine (bool_decide_unpack _ _). vm_compute. exact I.
  - repeat constructor.
Qed.



(** ** Unresolved roles and the merged frame *)

Lemma getitem_blank_pruned (out : DataFrame str) (k : str) :
  getitem out k = Some (replicate (len out) []) →
  getitem (iloc_from 1 out) k
  = Some (replicate (len (iloc_from 1 out)) []).
Proof.
  intros Hk. rewrite getitem_iloc_from, Hk. simpl.
  by rewrite drop_replicate.
Qed.

Section unresolved.
Context `{Unicode}.

Lemma clean_blank_columns (df : DataFrame str) :
  frame_wf df →
  let r := resolve (columns df) in
  ∃ out, clean df = Some out ∧ columns out = EXPECTED
    ∧ (role_name r = None →
       getitem out (lit "First Name") = Some (replicate (len out) []))
    ∧ (role_last_name_source r = None →
       getitem out (lit "Last Name") = Some (replicate (len out) []))
    ∧ (role_email r = None →
       getitem out (lit "Email") = Some (replicate (len out) []))
    ∧ (role_phone r = None →
       getitem out (lit "Phone") = Some (replicate (len out) [])).
Proof.
  intros Hwf r.
  destruct (project_columns df) as (a & b & c & d & Hp & Ha & Hb & Hc & Hd).
  fold r in Ha, Hb, Hc, Hd.
  assert (Hlen : len (out5 a b c d (replicate (len df) [])) = len df).
  { apply len_out5; eauto using column_of_length, length_replicate. }
  assert (Hblank :
    (role_name r = None →
     getitem (out5 a b c d (replicate (len df) [])) (lit "First Name")
     = Some (replicate (len df) []))
    ∧ (role_last_name_source r = None →
       getitem (out5 a b c d (replicate (len df) [])) (lit "Last Name")
       = Some (replicate (len df) []))
    ∧ (role_email r = None →
       getitem (out5 a b c d (replicate (len df) [])) (lit "Email")
       = Some (replicate (len df) []))
    ∧ (role_phone r = None →
       getitem (out5 a b c d (replicate (len df) [])) (lit "Phone")
       = Some (replicate (len df) []))).
  { repeat split; intros Hr.
    - rewrite Hr in Ha. simpl in Ha. by subst a.
    - rewrite Hr in Hb. simpl in Hb. by subst b.
    - rewrite Hr in Hc. simpl in Hc. by subst c.
    - rewrite Hr in Hd. simpl in Hd. by subst d. }
  rewrite <- Hlen in Hblank. destruct Hblank as (H1 & H2 & H3 & H4).
  destruct (clean_total df Hwf) as (out & Hp' & [Hc'|Hc']);
    rewrite Hp in Hp'; injection Hp' as <-; eexists; (split; [exact Hc'|]).
  - split; [done|]. auto.
  - split; [by rewrite columns_iloc_from|].
    repeat split; intros Hr; apply getitem_blank_pruned; auto.
Qed.

Lemma union_columns_same {A} (frames : list (DataFrame A)) (cs : list str) :
  frames ≠ [] → Forall (λ df, columns df = cs) frames →
  union_columns frames = cs.
Proof.
  unfold union_columns. intros Hne Hall.
  destruct Hall as [|df frames Hdf Hall]; [done|]. simpl. rewrite Hdf.
  assert (Hdiff0 : list_difference cs [] = cs).
  { clear. induction cs as [|x cs IH]; [done|]. simpl.
    destruct (decide_rel (∈) x []) as [Hx|_]; [by apply elem_of_nil in Hx|].
    by rewrite IH. }
  rewrite Hdiff0. clear Hne Hdf Hdiff0.
  assert (Hdiff : list_difference cs cs = []).
  { assert (Hgen : ∀ l, l ⊆ cs → list_difference l cs = []).
    { induction l as [|x l IH]; [done|]. intros Hsub. simpl.
      destruct (decide_rel (∈) x cs) as [_|Hx].
      - apply IH. intros y Hy. apply Hsub. by right.
      - destruct Hx. apply Hsub. by left. }
    by apply Hgen. }
  induction Hall as [|df' frames Hdf' _ IH]; [done|]. simpl.
  by rewrite Hdf', Hdiff, app_nil_r.
Qed.

Lemma pd_concat_columns {A} (frames : list (DataFrame A)) (cs : list str) :
  frames ≠ [] → Forall (λ df, columns df = cs) frames →
  ∃ merged, pd_concat frames = Some merged ∧ columns merged = cs.
Proof.
  intros Hne Hall. destruct frames as [|df frames]; [done|].
  eexists. split; [reflexivity|]. unfold columns at 1. cbn [frame_cols].
  rewrite <- list_fmap_compose.
  rewrite (union_columns_same (df :: frames) cs Hne Hall).
  apply list_fmap_id.
Qed.

End unresolved.




(** C8. The frame returned by [clean] has the columns First Name, Last
    Name, Email, Phone, Status, in that order, whatever the columns of the
    input; so has the frame merged from the cleaned frames of two or more
    files. *)
Theorem output_columns_fixed (U : Unicode) :
  (∀ df : DataFrame str,
     frame_wf df → ∃ out, clean df = Some out ∧ columns out = EXPECTED)
  ∧ (∀ dfs outs : list (DataFrame str),
       Forall frame_wf dfs →
       Forall2 (λ df out, clean df = Some out) dfs outs →
       (1 < length outs)%nat →
       ∃ merged, pd_concat outs = Some merged ∧ columns merged = EXPECTED).
Proof.
  assert (Hone : ∀ df : DataFrame str,
    frame_wf df → ∃ out, clean df = Some out ∧ columns out = EXPECTED).
  { intros df Hwf.
    destruct (clean_blank_columns df Hwf) as (out & Hc & Hcols & _). eauto. }
  split; [exact Hone|].
  intros dfs outs Hwf Hclean Hlen. apply pd_concat_columns.
  - intros ->. simpl in Hlen. lia.
  - clear Hlen. induction Hclean as [|df out dfs outs Hc _ IH]; [done|].
    apply Forall_cons in Hwf as [Hdf Hwf]. constructor; [|by apply IH].
    destruct (Hone df Hdf) as (out' & Hc' & Hcols). congruence.
Qed.

Lemma output_columns_fixed_witness :
  Forall frame_wf [vendor_row; blank_rows]
  ∧ ∃ outs merged,
      Forall2 (λ df out, clean df = Some out) [vendor_row; blank_rows] outs
      ∧ pd_concat outs = Some merged ∧ columns merged = EXPECTED.
Proof.
  assert (Hwf : Forall frame_wf [vendor_row; blank_rows]).
  { constructor; [apply frame_wf_vendor_row|].
    constructor; [apply frame_wf_blank_rows|constructor]. }
  split; [exact Hwf|].
  destruct (proj1 (output_columns_fixed ucd) vendor_row frame_wf_vendor_row)
    as (o1 & Hc1 & _).
  destruct (proj1 (output_columns_fixed ucd) blank_rows frame_wf_blank_rows)
    as (o2 & Hc2 & _).
  assert (Hcl : Forall2 (λ df out, clean df = Some out)
                  [vendor_row; blank_rows] [o1; o2]).
  { repeat constructor; done. }
  destruct (proj2 (output_columns_fixed ucd) _ _ Hwf Hcl) as (m & Hm & Hcols).
  - simpl. lia.
  - exists [o1; o2], m. auto.
Defined.

(** ** Columns that differ in case only *)

Lemma frame_wf_two_emails : frame_wf two_emails.
Proof.
  split.
  - refine (bool_decide_unpack _ _). vm_compute. exact I.
  - repeat constructor.
Qed.

Section rightmost.
Context `{Unicode}.



End rightmost.



(** ** The guard of [extract_first_name] *)

Section first_token.
Context `{Unicode}.

Lemma lstrip_head (s r : str) (c : N) :
  lstrip s = c :: r → isspace c = false.
Proof.
  induction s as [|x s IH]; simpl; [done|].
  destruct (isspace x) eqn:E; [done|]. by intros [= <- _].
Qed.

Lemma split_from_nil (s tok : str) :
  split_from tok s = [] → tok = [] ∧ Forall (λ c, isspace c = true) s.
Proof.
  revert tok. induction s as [|x s IH]; intros tok; simpl.
  - destruct tok; [by split|done].
  - destruct (isspace x) eqn:E.
    + destruct tok; simpl; [|done].
      intros [_ Hs]%IH. split; [done|]. by constructor.
    + intros [Htok _]%IH. by destruct tok.
Qed.

(** When the stripped name is not empty, [split] has a first token. *)
Lemma split_strip_head (name : str) :
  truthy (strip name) = true → ∃ t ts, split (strip name) = t :: ts.
Proof.
  intros Hne. unfold split.
  destruct (split_from [] (strip name)) as [|t ts] eqn:E; [|eauto].
  exfalso. apply split_from_nil in E as [_ Hall].
  unfold strip, rstrip in *.
  destruct (lstrip (reverse (lstrip name))) as [|c r] eqn:Er; [done|].
  apply lstrip_head in Er. rewrite reverse_cons in Hall.
  apply Forall_app in Hall as [_ Hc]. apply Forall_cons in Hc as [Hc _].
  congruence.
Qed.

End first_token.

(** ** The reader *)

Section reader_properties.
Context {exn : Type}.
Variable read_csv :
  option encoding → list N → nat → (exn + DataFrame str) * nat.

Lemma pd_read_csv_result (enc : option encoding) (f : file) :
  (pd_read_csv read_csv enc f).1 = (read_csv enc (content f) (position f)).1
  ∧ trace (pd_read_csv read_csv enc f).2
    = trace f ++ [Read enc (position f)]
  ∧ content (pd_read_csv read_csv enc f).2 = content f.
Proof.
  unfold pd_read_csv. by destruct (read_csv enc (content f) (position f)).
Qed.

Lemma pd_read_csv_seek (enc : option encoding) (f : file) :
  (pd_read_csv read_csv enc (seek 0 f)).1 = (read_csv enc (content f) 0).1
  ∧ trace (pd_read_csv read_csv enc (seek 0 f)).2
    = trace f ++ [Seek 0; Read enc 0]
  ∧ content (pd_read_csv read_csv enc (seek 0 f)).2 = content f.
Proof.
  destruct (pd_read_csv_result enc (seek 0 f)) as (Hr & Ht & Hc).
  rewrite Hr, Ht, Hc. simpl. by rewrite <- app_assoc.
Qed.

End reader_properties.

(** C7. [load_csv_any] reads with the encodings utf-8, utf-8-sig and
    latin-1 in that order, the first attempt from the position the file is
    at and each later one after a seek to position 0; it returns the frame
    of the first attempt that succeeds and attempts nothing after it. When
    the three fail it seeks to 0 again and reads once more without an
    encoding,
    and the outcome of that read, frame or exception, is its outcome. An
    exception is therefore returned only when all four attempts raised, and
    it is the exception of the last one; a frame is returned only as some
    attempt produced it. *)
Theorem load_csv_any_attempts {exn : Type}
    (read_csv : option encoding → list N → nat → (exn + DataFrame str) * nat)
    (f : file) :
  let a1 := (read_csv (Some utf_8) (content f) (position f)).1 in
  let a2 := (read_csv (Some utf_8_sig) (content f) 0%nat).1 in
  let a3 := (read_csv (Some latin_1) (content f) 0%nat).1 in
  let a4 := (read_csv None (content f) 0%nat).1 in
  let r := (load_csv_any read_csv f).1 in
  let t := trace (load_csv_any read_csv f).2 in
  ((∃ df, a1 = inr df ∧ r = inr df
      ∧ t = trace f ++ [Read (Some utf_8) (position f)])
   ∨ (∃ e1 df, a1 = inl e1 ∧ a2 = inr df ∧ r = inr df
      ∧ t = trace f ++ [Read (Some utf_8) (position f);
                        Seek 0; Read (Some utf_8_sig) 0])
   ∨ (∃ e1 e2 df, a1 = inl e1 ∧ a2 = inl e2 ∧ a3 = inr df ∧ r = inr df
      ∧ t = trace f ++ [Read (Some utf_8) (position f);
                        Seek 0; Read (Some utf_8_sig) 0;
                        Seek 0; Read (Some latin_1) 0])
   ∨ (∃ e1 e2 e3, a1 = inl e1 ∧ a2 = inl e2 ∧ a3 = inl e3 ∧ r = a4
      ∧ t = trace f ++ [Read (Some utf_8) (position f);
                        Seek 0; Read (Some utf_8_sig) 0;
                        Seek 0; Read (Some latin_1) 0;
                        Seek 0; Seek 0; Read None 0]))
  ∧ (∀ e, r = inl e →
       a4 = inl e ∧ ∃ e1 e2 e3, a1 = inl e1 ∧ a2 = inl e2 ∧ a3 = inl e3)
  ∧ (∀ df, r = inr df → inr df ∈ [a1; a2; a3; a4]).
Proof.
  intros a1 a2 a3 a4 r t.
  assert (Hcases :
    (∃ df, a1 = inr df ∧ r = inr df
      ∧ t = trace f ++ [Read (Some utf_8) (position f)])
    ∨ (∃ e1 df, a1 = inl e1 ∧ a2 = inr df ∧ r = inr df
      ∧ t = trace f ++ [Read (Some utf_8) (position f);
                        Seek 0; Read (Some utf_8_sig) 0])
    ∨ (∃ e1 e2 df, a1 = inl e1 ∧ a2 = inl e2 ∧ a3 = inr df ∧ r = inr df
      ∧ t = trace f ++ [Read (Some utf_8) (position f);
                        Seek 0; Read (Some utf_8_sig) 0;
                        Seek 0; Read (Some latin_1) 0])
    ∨ (∃ e1 e2 e3, a1 = inl e1 ∧ a2 = inl e2 ∧ a3 = inl e3 ∧ r = a4
      ∧ t = trace f ++ [Read (Some utf_8) (position f);
                        Seek 0; Read (Some utf_8_sig) 0;
                        Seek 0; Read (Some latin_1) 0;
                        Seek 0; Seek 0; Read None 0])).
  { subst a1 a2 a3 a4 r t. unfold load_csv_any, try_encodings.
    destruct (pd_read_csv_result read_csv (Some utf_8) f) as (R1 & T1 & C1).
    destruct (pd_read_csv read_csv (Some utf_8) f) as [[e1|df1] f1] eqn:E1;
      simpl in R1, T1, C1.
    2: { left. exists df1. simpl. by rewrite <- R1, T1. }
    right.
    destruct (pd_read_csv_seek read_csv (Some utf_8_sig) f1) as (R2 & T2 & C2).
    destruct (pd_read_csv read_csv (Some utf_8_sig) (seek 0 f1))
      as [[e2|df2] f2] eqn:E2; simpl in R2, T2, C2; rewrite C1 in R2, C2.
    2: { left. exists e1, df2. simpl.
         rewrite <- R1, <- R2, T2, T1, <- app_assoc. done. }
    right.
    destruct (pd_read_csv_seek read_csv (Some latin_1) f2) as (R3 & T3 & C3).
    destruct (pd_read_csv read_csv (Some latin_1) (seek 0 f2))
      as [[e3|df3] f3] eqn:E3; simpl in R3, T3, C3; rewrite C2 in R3, C3.
    2: { left. exists e1, e2, df3. simpl.
         rewrite <- R1, <- R2, <- R3, T3, T2, T1, <- !app_assoc. done. }
    right. exists e1, e2, e3.
    destruct (pd_read_csv_seek read_csv None (seek 0 f3)) as (R4 & T4 & C4).
    simpl in R4, T4. rewrite C3 in R4.
    rewrite <- R1, <- R2, <- R3, R4, T4, T3, T2, T1, <- !app_assoc. done. }
  split; [exact Hcases|]. split.
  - intros e Hr.
    destruct Hcases as [(df & _ & Hr' & _)|[(e1 & df & _ & _ & Hr' & _)|
      [(e1 & e2 & df & _ & _ & _ & Hr' & _)|
       (e1 & e2 & e3 & H1 & H2 & H3 & Hr' & _)]]]; try congruence.
    split; [congruence|]. exists e1, e2, e3. done.
  - intros df Hr. rewrite !elem_of_cons.
    destruct Hcases as [(df' & H1 & Hr' & _)|[(e1 & df' & _ & H2 & Hr' & _)|
      [(e1 & e2 & df' & _ & _ & H3 & Hr' & _)|
       (e1 & e2 & e3 & _ & _ & _ & Hr' & _)]]]; intuition congruence.
Qed.

Lemma load_csv_any_attempts_witness :
  let undecodable : option encoding → list N → nat → (nat + DataFrame str) * nat
    := λ enc _ _, (inl (match enc with Some _ => 1 | None => 2 end)%nat, 0%nat) in
  let f := {| content := [0xFF]; position := 0; trace := [] |} in
  (load_csv_any undecodable f).1 = inl 2%nat
  ∧ (undecodable None [0xFF] 0%nat).1 = inl 2%nat.
Proof.
  intros undecodable f. split; [reflexivity|].
  exact (proj1 (proj1 (proj2 (load_csv_any_attempts undecodable f)) 2%nat
                  eq_refl)).
Defined.

(** ** Further examples of the specification *)

Example extract_first_name_examples :
  extract_first_name (lit "  mary jane smith ") = lit "Mary"
  ∧ extract_first_name [] = [].
Proof. split; vm_compute; reflexivity. Qed.

Example email_strip_lower_example :
  lower (strip (lit "  John.Doe@EXAMPLE.com ")) = lit "john.doe@example.com".
Proof. vm_compute. reflexivity. Qed.

(** * Further properties of the code *)

(** ** [extract_first_name] *)

Section first_name.
Context `{Unicode}.

Lemma lstrip_spaces_app (ws s : str) :
  Forall (λ c, isspace c = true) ws → lstrip (ws ++ s) = lstrip s.
Proof. induction 1 as [|c ws Hc _ IH]; simpl; [done|]. by rewrite Hc. Qed.

Lemma lstrip_nonspace (c : N) (s : str) :
  isspace c = false → lstrip (c :: s) = c :: s.
Proof. intros Hc. simpl. by rewrite Hc. Qed.

Lemma rstrip_snoc_space (s : str) (x : N) :
  isspace x = true → rstrip (s ++ [x]) = rstrip s.
Proof.
  intros Hx. unfold rstrip. rewrite reverse_app. simpl. by rewrite Hx.
Qed.

Lemma rstrip_snoc_nonspace (s : str) (x : N) :
  isspace x = false → rstrip (s ++ [x]) = s ++ [x].
Proof.
  intros Hx. unfold rstrip. rewrite reverse_app. simpl. rewrite Hx.
  by rewrite reverse_cons, reverse_involutive.
Qed.

(** What [rstrip] leaves after a token: nothing, or a rest that still
    starts with the white space that ended the token. *)
Lemma rstrip_after_token (tok rest : str) :
  tok ≠ [] → Forall (λ c, isspace c = false) tok →
  (rest = [] ∨ ∃ c r, rest = c :: r ∧ isspace c = true) →
  ∃ rest', rstrip (tok ++ rest) = tok ++ rest'
           ∧ (rest' = [] ∨ ∃ c r, rest' = c :: r ∧ isspace c = true).
Proof.
  intros Hne Htok. induction rest as [|x rest IH] using rev_ind; intros Hrest.
  - exists []. split; [|by left]. rewrite app_nil_r.
    destruct tok as [|c tok] using rev_ind; [done|].
    apply Forall_app in Htok as [_ Hc]. apply Forall_cons in Hc as [Hc _].
    by apply rstrip_snoc_nonspace.
  - destruct (isspace x) eqn:Hx.
    + rewrite app_assoc, rstrip_snoc_space by done. apply IH.
      destruct Hrest as [Hnil|(c & r & Hcr & Hc)].
      * by destruct rest.
      * destruct rest as [|y rest]; [by left|]. right.
        simpl in Hcr. injection Hcr as -> _. eauto.
    + exists (rest ++ [x]). split; [|by right; destruct Hrest as
        [Hnil|(c & r & Hcr & Hc)]; [by destruct rest|eauto]].
      rewrite app_assoc. by apply rstrip_snoc_nonspace.
Qed.

Lemma split_from_token (tok acc s : str) :
  Forall (λ c, isspace c = false) tok →
  split_from acc (tok ++ s) = split_from (acc ++ tok) s.
Proof.
  intros Htok. revert acc.
  induction Htok as [|c tok Hc _ IH]; intros acc; simpl.
  - by rewrite app_nil_r.
  - rewrite Hc, IH. by rewrite <- app_assoc.
Qed.

(** The tokens of [split]: none is empty, none holds white space. *)
Lemma split_from_tokens (s acc : str) :
  Forall (λ c, isspace c = false) acc →
  Forall (λ t, t ≠ [] ∧ Forall (λ c, isspace c = false) t) (split_from acc s).
Proof.
  revert acc. induction s as [|x s IH]; intros acc Hacc; simpl.
  - destruct acc; simpl; constructor; [done|constructor].
  - destruct (isspace x) eqn:Hx.
    + destruct acc; simpl; [apply IH; constructor|].
      constructor; [done|]. apply IH. constructor.
    + apply IH. apply Forall_app. split; [done|]. by repeat constructor.
Qed.

End first_name.

(** X1. [extract_first_name] returns the capitalized first token: for a
    name made of leading white space, a token without white space, and a
    rest that is empty or starts with white space, the result is
    [smart_cap_piece] of the token, whatever the rest holds. *)
Theorem extract_first_name_first_token (U : Unicode) (ws tok rest : str) :
  Forall (λ c, isspace c = true) ws →
  tok ≠ [] → Forall (λ c, isspace c = false) tok →
  (rest = [] ∨ ∃ c r, rest = c :: r ∧ isspace c = true) →
  extract_first_name (ws ++ tok ++ rest) = smart_cap_piece tok.
Proof.
  intros Hws Hne Htok Hrest. unfold extract_first_name.
  assert (Hname : truthy (ws ++ tok ++ rest) = true).
  { apply truthy_true. destruct ws; [by destruct tok|done]. }
  rewrite Hname. simpl. unfold strip.
  rewrite lstrip_spaces_app by done.
  assert (Hl : lstrip (tok ++ rest) = tok ++ rest).
  { destruct tok as [|c tok]; [done|].
    apply Forall_cons in Htok as [Hc _]. by apply lstrip_nonspace. }
  rewrite Hl.
  destruct (rstrip_after_token tok rest Hne Htok Hrest) as (rest' & -> & Hr').
  assert (Ht : truthy (tok ++ rest') = true).
  { apply truthy_true. by destruct tok. }
  rewrite Ht. unfold split. rewrite split_from_token by done. simpl.
  assert (Htt : truthy tok = true) by by apply truthy_true.
  destruct Hr' as [->|(c & r & -> & Hc)]; simpl.
  - by rewrite Htt.
  - by rewrite Hc, Htt.
Qed.

Lemma extract_first_name_first_token_witness :
  extract_first_name (lit "  " ++ lit "o'neil" ++ lit " van der berg")
  = smart_cap_piece (lit "o'neil").
Proof.
  apply (extract_first_name_first_token ucd).
  - repeat constructor.
  - discriminate.
  - repeat constructor.
  - right. exists 0x20, (lit "van der berg"). split; reflexivity.
Defined.

(** X2. A name made only of white space, like the empty name, gives the
    empty first name. *)
Theorem extract_first_name_blank (U : Unicode) (name : str) :
  Forall (λ c, isspace c = true) name → extract_first_name name = [].
Proof.
  intros Hname. unfold extract_first_name.
  destruct (truthy name); simpl; [|done].
  assert (Hl : lstrip name = []).
  { rewrite <- (app_nil_r name). by rewrite lstrip_spaces_app. }
  unfold strip, rstrip. rewrite Hl. reflexivity.
Qed.

Lemma extract_first_name_blank_witness :
  extract_first_name [0x20; 0x9; 0xA0] = [].
Proof. apply (extract_first_name_blank ucd). repeat constructor. Defined.

(** X3. The index [0] of [split()] in [extract_first_name] cannot fail:
    when the stripped name is not empty, [split] returns at least one
    token; and every token [split] returns is non-empty and free of white
    space. *)
Theorem split_has_first_token (U : Unicode) (name : str) :
  truthy (strip name) = true →
  (∃ t ts, split (strip name) = t :: ts)
  ∧ Forall (λ t, t ≠ [] ∧ Forall (λ c, isspace c = false) t)
      (split (strip name)).
Proof.
  intros Hne. split; [by apply split_strip_head|].
  apply split_from_tokens. constructor.
Qed.

Lemma split_has_first_token_witness :
  ∃ t ts, split (strip (lit " ann  lee ")) = t :: ts.
Proof.
  apply (split_has_first_token ucd (lit " ann  lee ")). reflexivity.
Defined.

(** ** [normalize_phone] *)

Section phone.
Context `{Unicode}.

Lemma filter_sublist {A} (f : A → bool) (l : list A) :
  List.filter f l `sublist_of` l.
Proof.
  induction l as [|x l IH]; simpl; [constructor|].
  destruct (f x); by constructor.
Qed.

Lemma filter_Forall {A} (f : A → bool) (l : list A) :
  Forall (λ x, f x = true) (List.filter f l).
Proof.
  induction l as [|x l IH]; simpl; [constructor|].
  destruct (f x) eqn:E; [by constructor|done].
Qed.

Lemma filter_all {A} (f : A → bool) (l : list A) :
  Forall (λ x, f x = true) l → List.filter f l = l.
Proof.
  induction 1 as [|x l Hx _ IH]; simpl; [done|]. by rewrite Hx, IH.
Qed.

Lemma normalize_phone_digits (raw : str) :
  Forall (λ c, isdecimal c = true) (normalize_phone raw)
  ∧ normalize_phone raw `sublist_of` raw.
Proof.
  rewrite normalize_phone_rule. unfold phone_rule.
  pose proof (filter_Forall isdecimal raw) as Hd.
  pose proof (filter_sublist isdecimal raw) as Hs.
  destruct (_ && _); [|done]. split.
  - by apply Forall_drop.
  - etrans; [apply sublist_drop|done].
Qed.

Lemma normalize_phone_short (r : str) :
  Forall (λ c, isdecimal c = true) r →
  startswith_1 r && (11 <=? length r)%nat = false →
  normalize_phone r = r.
Proof.
  intros Hr Hc. rewrite normalize_phone_rule. unfold phone_rule.
  rewrite (filter_all _ _ Hr), Hc. done.
Qed.

End phone.

(** X4. [normalize_phone] invents nothing: its result holds only decimal
    digits, and they are characters of the input in their original
    order. *)
Theorem normalize_phone_only_digits_of_input (U : Unicode) (raw : str) :
  Forall (λ c, isdecimal c = true) (normalize_phone raw)
  ∧ normalize_phone raw `sublist_of` raw.
Proof. apply normalize_phone_digits. Qed.

(** X5. Normalizing a phone number twice is the same as normalizing it
    once when the input has at most eleven digits. With more digits it need
    not be: "115551234567" becomes "15551234567", which becomes
    "5551234567". *)
Theorem normalize_phone_twice :
  (∀ (U : Unicode) (raw : str),
     (length (List.filter isdecimal raw) ≤ 11)%nat →
     normalize_phone (normalize_phone raw) = normalize_phone raw)
  ∧ normalize_phone (lit "115551234567") = lit "15551234567"
  ∧ normalize_phone (lit "15551234567") = lit "5551234567".
Proof.
  split; [|split; vm_compute; reflexivity].
  intros U raw Hlen.
  destruct (normalize_phone_digits raw) as [Hd _].
  apply normalize_phone_short; [done|].
  revert Hd. rewrite normalize_phone_rule. unfold phone_rule.
  destruct (startswith_1 _ && _) eqn:Hc; intros Hd.
  - apply andb_false_iff. right. apply Nat.leb_gt.
    rewrite length_drop. lia.
  - done.
Qed.

Lemma normalize_phone_twice_witness :
  (length (List.filter isdecimal (lit "+1 (555) 123-4567")) ≤ 11)%nat
  ∧ normalize_phone (normalize_phone (lit "+1 (555) 123-4567"))
    = normalize_phone (lit "+1 (555) 123-4567").
Proof.
  assert (Hlen : (length (List.filter isdecimal (lit "+1 (555) 123-4567"))
                  ≤ 11)%nat) by (vm_compute; lia).
  split; [exact Hlen|].
  exact (proj1 normalize_phone_twice ucd _ Hlen).
Defined.

(** ** [smart_cap_piece] as one pass *)

Lemma latin1_plain_single (c : N) : latin1_plain c = true → cp_single c = true.
Proof.
  intros Hc. unfold latin1_plain in Hc.
  apply orb_true_iff in Hc as [Hc|Hc].
  - apply andb_true_iff in Hc as [Hlt Hne]. apply N.ltb_lt in Hlt.
    revert c Hlt Hne. change 0x100 with (N.of_nat 256). intros c Hlt Hne.
    pose proof (forall_below 256
      (λ c, implb (negb (c =? 0xDF)) (cp_single c))
      ltac:(vm_compute; reflexivity) c Hlt) as Hall.
    simpl in Hall. by rewrite Hne in Hall.
  - apply N.eqb_eq in Hc as ->. vm_compute. reflexivity.
Qed.

Lemma lower_app (s1 s2 : str) : lower (s1 ++ s2) = lower s1 ++ lower s2.
Proof. simpl. by rewrite fmap_app, concat_app. Qed.

Lemma cap_seg_snoc (seg : str) (c : N) :
  cp_single c = true →
  cap_seg (seg ++ [c])
  = cap_seg seg ++ [if negb (truthy seg) then upper1 c else lower1 c].
Proof.
  unfold cp_single. rewrite !andb_true_iff, !bool_decide_eq_true.
  intros [[Hu Hl] _]. destruct seg as [|x seg].
  - unfold cap_seg. simpl. by rewrite Hu.
  - unfold cap_seg. cbn [app truthy take drop negb].
    rewrite !drop_0, lower_app, <- app_assoc. f_equal. f_equal.
    simpl. by rewrite Hl.
Qed.

Lemma cap_pieces_scan (piece seg : str) :
  no_delim seg → forallb latin1_plain piece = true →
  concat (cap_piece <$> re_split_from seg piece)
  = cap_seg seg ++ cap_scan (negb (truthy seg)) piece.
Proof.
  revert seg. induction piece as [|c rest IH]; intros seg Hseg Hp.
  - csimpl. by rewrite (in_delims_no_delim seg Hseg).
  - simpl in Hp. apply andb_true_iff in Hp as [Hc Hrest].
    pose proof (latin1_plain_single c Hc) as Hs. simpl.
    destruct (is_delim c) eqn:Hd.
    + csimpl. rewrite (in_delims_no_delim seg Hseg), (in_delims_delim c Hd).
      rewrite (IH [] ltac:(constructor) Hrest). simpl. f_equal. f_equal.
      unfold cp_single in Hs. rewrite Hd in Hs. simpl in Hs.
      rewrite !andb_true_iff, !bool_decide_eq_true in Hs.
      destruct Hs as [_ [Hu Hl]]. by destruct (negb (truthy seg)).
    + rewrite IH; [|apply Forall_app; split; [done|by repeat constructor]
                   |done].
      rewrite cap_seg_snoc by done. rewrite <- app_assoc. f_equal.
      by destruct seg.
Qed.

Lemma smart_cap_piece_cap_scan (t : str) :
  forallb latin1_plain t = true → smart_cap_piece t = cap_scan true t.
Proof.
  intros Ht. destruct t as [|c t]; [done|].
  unfold smart_cap_piece, re_split.
  change (negb (truthy (c :: t))) with false. cbv iota.
  by rewrite (cap_pieces_scan (c :: t) [] ltac:(constructor) Ht).
Qed.

(** X6. On tokens of the code points U+0000..U+00FF other than sharp s,
    and of U+2019, [smart_cap_piece] is one left-to-right pass: a character
    at the start of the token or right after a hyphen or apostrophe is
    uppercased, every other character is lowercased. *)
Theorem smart_cap_piece_one_pass (t : str) :
  forallb latin1_plain t = true → smart_cap_piece t = cap_scan true t.
Proof. apply smart_cap_piece_cap_scan. Qed.

Lemma smart_cap_piece_one_pass_witness :
  smart_cap_piece (lit "mARY-anne o'b") = cap_scan true (lit "mARY-anne o'b").
Proof. apply smart_cap_piece_one_pass. reflexivity. Defined.

Lemma cap_scan_length (t : str) (b : bool) : length (cap_scan b t) = length t.
Proof. revert b. induction t as [|c t IH]; intros b; simpl; [done|]. by f_equal. Qed.

Lemma cap_scan_lower (t : str) (b : bool) :
  forallb ascii_or_rsquo t = true → lower (cap_scan b t) = lower t.
Proof.
  revert b. induction t as [|c t IH]; intros b Ht; [done|].
  simpl in Ht. apply andb_true_iff in Ht as [Hc Ht].
  change (cap_scan b (c :: t))
    with ((if b then upper1 c else lower1 c) :: cap_scan (is_delim c) t).
  change (lower (?x :: ?s)) with (lower_cp x ++ lower s).
  rewrite (IH _ Ht). f_equal.
  assert (Hboth : lower_cp (upper1 c) = lower_cp c
                  ∧ lower_cp (lower1 c) = lower_cp c).
  { unfold ascii_or_rsquo in Hc. apply orb_true_iff in Hc as [Hc|Hc].
    - apply N.ltb_lt in Hc. revert c Hc. change 0x80 with (N.of_nat 128).
      intros c Hc.
      pose proof (forall_below 128 cp_lower_absorbs
        ltac:(vm_compute; reflexivity) c Hc) as Hall.
      unfold cp_lower_absorbs in Hall.
      apply andb_true_iff in Hall as [H1 H2].
      by rewrite !bool_decide_eq_true in H1, H2.
    - apply N.eqb_eq in Hc as ->. split; vm_compute; reflexivity. }
  destruct Hboth. by destruct b.
Qed.

Lemma ascii_or_rsquo_latin1_plain (t : str) :
  forallb ascii_or_rsquo t = true → forallb latin1_plain t = true.
Proof.
  rewrite !forallb_forall. intros Ht c Hc. specialize (Ht c Hc).
  unfold ascii_or_rsquo, is_ascii, latin1_plain in *.
  apply orb_true_iff in Ht as [Ha|Hr]; [|by rewrite Hr, orb_true_r].
  apply N.ltb_lt in Ha. apply orb_true_iff. left.
  apply andb_true_iff. split; [apply N.ltb_lt; lia|].
  apply negb_true_iff, N.eqb_neq. lia.
Qed.

(** X7. On ASCII tokens (U+2019 allowed) [smart_cap_piece] changes
    nothing but the case of letters: the result has the length of the token
    and the same lowercase form. *)
Theorem smart_cap_piece_changes_case_only (t : str) :
  forallb ascii_or_rsquo t = true →
  length (smart_cap_piece t) = length t
  ∧ lower (smart_cap_piece t) = lower t.
Proof.
  intros Ht.
  rewrite (smart_cap_piece_cap_scan t (ascii_or_rsquo_latin1_plain t Ht)).
  split; [apply cap_scan_length|by apply cap_scan_lower].
Qed.

Lemma smart_cap_piece_changes_case_only_witness :
  length (smart_cap_piece (lit "mARY-anne")) = length (lit "mARY-anne")
  ∧ lower (smart_cap_piece (lit "mARY-anne")) = lower (lit "mARY-anne").
Proof. apply smart_cap_piece_changes_case_only. reflexivity. Defined.

(** ** The frame returned by [clean] *)

Section clean_shape.
Context `{Unicode}.

Lemma frame_wf_out5 (n : nat) (a b c d e : list str) :
  length a = n → length b = n → length c = n → length d = n → length e = n →
  frame_wf (out5 a b c d e).
Proof.
  intros Ha Hb Hc Hd He. split.
  - change (columns (out5 a b c d e)) with EXPECTED.
    refine (bool_decide_unpack _ _). vm_compute. exact I.
  - rewrite (len_out5 n) by done. unfold out5, pd_DataFrame. simpl.
    repeat constructor; done.
Qed.

Lemma frame_wf_iloc_from (df : DataFrame str) :
  frame_wf df → frame_wf (iloc_from 1 df).
Proof.
  intros [Hnd Hlen]. split; [by rewrite columns_iloc_from|].
  unfold iloc_from, len in *. cbn [frame_cols frame_len].
  apply Forall_fmap. eapply Forall_impl; [exact Hlen|].
  intros [k s] Hs. simpl in *. rewrite length_drop. lia.
Qed.

Lemma project_wf (df out : DataFrame str) :
  frame_wf df → project df = Some out →
  frame_wf out ∧ len out = len df
  ∧ getitem out (lit "Status") = Some (replicate (len out) []).
Proof.
  intros Hwf Hout.
  destruct (project_columns df) as (a & b & c & d & Hp & Ha & Hb & Hc & Hd).
  rewrite Hp in Hout. injection Hout as <-.
  assert (Hlen : len (out5 a b c d (replicate (len df) [])) = len df).
  { apply len_out5; eauto using column_of_length, length_replicate. }
  split; [|split; [done|by rewrite Hlen]].
  apply (frame_wf_out5 (len df));
    eauto using column_of_length, length_replicate.
Qed.

Lemma clean_shape (df : DataFrame str) :
  frame_wf df →
  ∃ out, clean df = Some out ∧ frame_wf out
    ∧ (len out = len df ∨ (len df ≠ 0 ∧ len out = len df - 1)%nat)
    ∧ getitem out (lit "Status") = Some (replicate (len out) []).
Proof.
  intros Hwf.
  destruct (project_rows df Hwf) as (out & Hp & Hlen & _ & _).
  destruct (project_wf df out Hwf Hp) as (Hwfo & _ & Hst).
  unfold clean. rewrite Hp. simpl. unfold prune.
  case_bool_decide as Hn; [|eauto 10].
  destruct (iloc out 0) as [row|] eqn:Hrow; simpl.
  - destruct (isna_all _); [|eauto 10].
    eexists. split; [done|]. split; [by apply frame_wf_iloc_from|]. split.
    + right. unfold iloc_from, len in *. simpl. lia.
    + by apply getitem_blank_pruned.
  - exfalso. destruct (project_rows df Hwf) as (out' & Hp' & _ & _ & Hrows).
    rewrite Hp in Hp'. injection Hp' as <-.
    destruct (Hrows 0%nat ltac:(lia)) as (? & ? & ? & ? & Hr & _).
    congruence.
Qed.

Lemma lower_dict_skip (pre post : list str) (c k : str) :
  k ≠ lower c →
  lower_dict (pre ++ c :: post) !! k = lower_dict (pre ++ post) !! k.
Proof.
  intros Hk. induction post as [|x post IH] using rev_ind.
  - rewrite app_nil_r, lower_dict_snoc. by rewrite lookup_insert_ne.
  - rewrite app_comm_cons, !app_assoc, !lower_dict_snoc.
    rewrite !lookup_insert. case_decide; [done|]. exact IH.
Qed.

Lemma assoc_skip {A} (pre post : list (str * A)) (c c' : str) (s : A) :
  c' ≠ c → assoc c' (pre ++ (c, s) :: post) = assoc c' (pre ++ post).
Proof.
  intros Hc. induction pre as [|[k v] pre IH]; simpl.
  - case_decide; [by subst|done].
  - case_decide; [done|exact IH].
Qed.

Lemma src_or_key (cs : list str) (k1 k2 c : str) :
  src_if_truthy (py_or (lower_dict cs !! k1) (lower_dict cs !! k2)) = Some c →
  lower c = k1 ∨ lower c = k2.
Proof.
  unfold src_if_truthy, py_or.
  destruct (truthy_opt (lower_dict cs !! k1)) eqn:E1.
  - rewrite E1. intros Hc. left. by apply lower_dict_Some in Hc as [_ ?].
  - destruct (truthy_opt (lower_dict cs !! k2)); [|done].
    intros Hc. right. by apply lower_dict_Some in Hc as [_ ?].
Qed.

End clean_shape.





(** X10. A column whose lowercased name is none of [name], [address],
    [email_address], [email], [phone_number], [phone] has no effect on
    [clean]: the result is the same with the column, at any place among the
    others and with any cells, as without it. *)
Theorem clean_ignores_other_columns (U : Unicode)
    (pre post : list (str * list str)) (c : str) (s : list str) (n : nat) :
  lower c ∉ [lit "name"; lit "address"; lit "email_address"; lit "email";
             lit "phone_number"; lit "phone"] →
  clean {| frame_cols := pre ++ (c, s) :: post; frame_len := n |}
  = clean {| frame_cols := pre ++ post; frame_len := n |}.
Proof.
  intros Hc. rewrite !not_elem_of_cons in Hc.
  destruct Hc as (Hk1 & Hk2 & Hk3 & Hk4 & Hk5 & Hk6 & _).
  set (df1 := {| frame_cols := pre ++ (c, s) :: post; frame_len := n |}).
  set (df2 := {| frame_cols := pre ++ post; frame_len := n |}).
  assert (Hcols1 : columns df1 = pre.*1 ++ c :: post.*1).
  { unfold columns, df1. cbn [frame_cols]. by rewrite fmap_app. }
  assert (Hcols2 : columns df2 = pre.*1 ++ post.*1).
  { unfold columns, df2. cbn [frame_cols]. by rewrite fmap_app. }
  assert (Hdict : ∀ k, k ≠ lower c →
            lower_dict (columns df1) !! k = lower_dict (columns df2) !! k).
  { intros k Hk. rewrite Hcols1, Hcols2. by apply lower_dict_skip. }
  assert (Hres : resolve (columns df1) = resolve (columns df2)).
  { unfold resolve. rewrite !Hdict by done. done. }
  assert (Hrole : ∀ src f, (∀ c', src = Some c' → c' ≠ c) →
            role_series df1 src f = role_series df2 src f).
  { intros [c'|] f Hsrc; [|done]. unfold role_series, getitem, df1, df2.
    cbn [frame_cols]. by rewrite (assoc_skip pre post c c' s (Hsrc c' eq_refl)). }
  assert (Hproj : project df1 = project df2).
  { rewrite !project_roles. cbv zeta. rewrite Hres.
    rewrite (Hrole (role_name _) extract_first_name),
            (Hrole (role_last_name_source _) id),
            (Hrole (role_email _) (λ x, lower (strip x))),
            (Hrole (role_phone _) normalize_phone); [done|..].
    - intros c' Hc' ->. apply src_or_key in Hc' as [?|?]; congruence.
    - intros c' Hc' ->. apply src_or_key in Hc' as [?|?]; congruence.
    - intros c' Hc' ->. apply lower_dict_Some in Hc' as [_ ?]. congruence.
    - intros c' Hc' ->. apply lower_dict_Some in Hc' as [_ ?]. congruence. }
  unfold clean. by rewrite Hproj.
Qed.

Lemma clean_ignores_other_columns_witness :
  clean {| frame_cols :=
             [(lit "Name", [lit "ann lee"])] ++
             (lit "match_score", [lit "0.93"]) :: [(lit "Phone", [lit "555"])];
           frame_len := 1 |}
  = clean {| frame_cols :=
               [(lit "Name", [lit "ann lee"])] ++ [(lit "Phone", [lit "555"])];
             frame_len := 1 |}.
Proof.
  apply (clean_ignores_other_columns ucd).
  rewrite !not_elem_of_cons. repeat split;
    try (vm_compute; discriminate). apply not_elem_of_nil.
Defined.

(** X11. Cleaning a cleaned frame again loses the names: of the output
    headers only [Email] and [Phone] are names the resolver knows, so the
    second result has empty First Name and Last Name columns. *)
Theorem clean_twice_blanks_names (df out : DataFrame str) :
  frame_wf df → clean df = Some out →
  role_email (resolve (columns out)) = Some (lit "Email")
  ∧ role_phone (resolve (columns out)) = Some (lit "Phone")
  ∧ ∃ out2, clean out = Some out2
      ∧ getitem out2 (lit "First Name") = Some (replicate (len out2) [])
      ∧ getitem out2 (lit "Last Name") = Some (replicate (len out2) []).
Proof.
  intros Hwf Hout.
  destruct (clean_blank_columns df Hwf) as (out' & Hc & Hcols & _).
  rewrite Hout in Hc. injection Hc as <-.
  destruct (clean_shape df Hwf) as (out' & Hc & Hwfo & _).
  rewrite Hout in Hc. injection Hc as <-.
  rewrite Hcols. split; [vm_compute; reflexivity|].
  split; [vm_compute; reflexivity|].
  destruct (clean_blank_columns out Hwfo) as (out2 & Hc2 & _ & Hfn & Hln & _).
  rewrite Hcols in Hfn, Hln.
  exists out2. split; [done|]. split; [apply Hfn|apply Hln];
    vm_compute; reflexivity.
Qed.

Lemma clean_twice_blanks_names_witness :
  ∃ out out2, clean vendor_row = Some out ∧ clean out = Some out2
    ∧ getitem out (lit "First Name") = Some [lit "Mary-Anne"]
    ∧ getitem out2 (lit "First Name") = Some (replicate (len out2) []).
Proof.
  pose (out := out5 [lit "Mary-Anne"] [lit "Smith"] [lit "a@b.com"]
                    [lit "5551234567"] [[]]).
  assert (Hc : clean vendor_row = Some out) by (vm_compute; reflexivity).
  destruct (clean_twice_blanks_names vendor_row out frame_wf_vendor_row Hc)
    as (_ & _ & out2 & Hc2 & Hfn & _).
  exists out, out2. repeat split; try done.
Defined.

(** ** The merged frame *)





(** ** The upload loop *)

Section script_properties.
Context `{Unicode} {exn : Type}.
Variable read_csv :
  option encoding → list N → nat → (exn + DataFrame str) * nat.
Variable to_csv : DataFrame (option str) → exn + list N.

Lemma process_file_unreadable (f : upload) (e : exn) :
  (load_csv_any read_csv (up_file f)).1 = inl e →
  process_file read_csv to_csv f = ([], inl (Exception e)).
Proof. intros Hl. unfold process_file. by rewrite Hl. Qed.

Lemma process_file_downloads (f : upload) (calls : list st_call)
    (r : outcome exn + DataFrame str) :
  process_file read_csv to_csv f = (calls, r) →
  match r with
  | inr _ => download_names calls = [lit "hatch_cleaned_" ++ up_name f]
  | inl o => download_names calls = [] ∧ o ≠ Completed
  end.
Proof.
  unfold process_file.
  destruct (load_csv_any read_csv (up_file f)).1 as [e|df_in].
  - intros [= <- <-]. done.
  - destruct (clean df_in) as [cleaned|]; [|by intros [= <- <-]].
    destruct (to_csv_bytes to_csv (present cleaned) (up_name f))
      as [e|csv_bytes]; intros [= <- <-]; done.
Qed.

Lemma for_uploaded_app (pre rest : list upload)
    (acc cl : list (DataFrame str)) (calls : list st_call) :
  for_uploaded read_csv to_csv pre acc = (calls, inr cl) →
  for_uploaded read_csv to_csv (pre ++ rest) acc
  = let '(calls', r) := for_uploaded read_csv to_csv rest cl in
    (calls ++ calls', r).
Proof.
  revert acc calls. induction pre as [|f pre IH]; intros acc calls; simpl.
  - intros [= <- <-]. by destruct (for_uploaded _ _ rest acc).
  - destruct (process_file read_csv to_csv f) as [c1 [o|cleaned]]; [done|].
    destruct (for_uploaded _ _ pre (acc ++ [cleaned])) as [c2 r2] eqn:E.
    intros [= <- ->]. rewrite (IH _ _ E).
    destruct (for_uploaded _ _ rest cl). by rewrite app_assoc.
Qed.

Lemma for_uploaded_downloads (fs : list upload)
    (acc : list (DataFrame str)) (calls : list st_call)
    (r : outcome exn + list (DataFrame str)) :
  for_uploaded read_csv to_csv fs acc = (calls, r) →
  match r with
  | inr cl =>
      download_names calls = (λ f, lit "hatch_cleaned_" ++ up_name f) <$> fs
      ∧ length cl = (length acc + length fs)%nat
  | inl o => o ≠ Completed
  end.
Proof.
  revert acc calls r. induction fs as [|f fs IH]; intros acc calls r; simpl.
  - intros [= <- <-]. split; [done|lia].
  - destruct (process_file read_csv to_csv f) as [c1 r1] eqn:E1.
    pose proof (process_file_downloads f c1 r1 E1) as H1.
    destruct r1 as [o|cleaned].
    + intros [= <- <-]. by destruct H1.
    + destruct (for_uploaded _ _ fs (acc ++ [cleaned])) as [c2 r2] eqn:E2.
      intros [= <- <-]. specialize (IH _ _ _ E2).
      destruct r2 as [o|cl]; [done|]. destruct IH as [Hd Hl].
      unfold download_names in *. rewrite omap_app, H1, Hd.
      split; [done|]. rewrite length_app in Hl. simpl in Hl. lia.
Qed.


End script_properties.

(** X13. A file that cannot be read ends the run: when [load_csv_any]
    raises for a file, the script stops with that exception after the calls
    made for the files before it; the files after it are not processed and
    no merged download is offered. *)
Theorem main_stops_at_unreadable_file (U : Unicode) {exn : Type}
    (read_csv : option encoding → list N → nat → (exn + DataFrame str) * nat)
    (to_csv : DataFrame (option str) → exn + list N)
    (pre post : list upload) (f : upload) (e : exn)
    (calls : list st_call) (cl : list (DataFrame str)) :
  for_uploaded read_csv to_csv pre [] = (calls, inr cl) →
  (load_csv_any read_csv (up_file f)).1 = inl e →
  main read_csv to_csv (pre ++ f :: post) = (calls, Exception e).
Proof.
  intros Hpre Hf.
  assert (Hloop : for_uploaded read_csv to_csv (pre ++ f :: post) []
                  = (calls, inl (Exception e))).
  { rewrite (for_uploaded_app read_csv to_csv pre (f :: post) [] cl calls Hpre).
    simpl. rewrite (process_file_unreadable read_csv to_csv f e Hf).
    by rewrite app_nil_r. }
  unfold main. rewrite Hloop. by destruct pre.
Qed.

Lemma main_stops_at_unreadable_file_witness :
  main never_parses writes_nothing
    ([] ++ some_upload "a.csv" :: [some_upload "b.csv"])
  = ([], Exception 2%nat).
Proof.
  apply (main_stops_at_unreadable_file ucd never_parses writes_nothing
           [] [some_upload "b.csv"] (some_upload "a.csv") 2%nat [] []);
    reflexivity.
Defined.

(** X14. A run that reaches the end of the script has offered one download
    per uploaded file, named [hatch_cleaned_] followed by the name of the
    file, in upload order, and after them [hatch_cleaned_merged.csv] when
    two or more files were uploaded, and only then. *)
Theorem main_download_names (U : Unicode) {exn : Type}
    (read_csv : option encoding → list N → nat → (exn + DataFrame str) * nat)
    (to_csv : DataFrame (option str) → exn + list N)
    (uploaded : list upload) (calls : list st_call) :
  uploaded ≠ [] →
  main read_csv to_csv uploaded = (calls, Completed) →
  download_names calls
  = ((λ f, lit "hatch_cleaned_" ++ up_name f) <$> uploaded)
    ++ (if bool_decide (1 < length uploaded)%nat
        then [lit "hatch_cleaned_merged.csv"] else []).
Proof.
  intros Hne. unfold main. destruct uploaded as [|f fs]; [done|].
  destruct (for_uploaded read_csv to_csv (f :: fs) []) as [c r] eqn:E.
  pose proof (for_uploaded_downloads read_csv to_csv _ _ _ _ E) as Hd.
  destruct r as [o|cl]; [by intros [= <- ->]|].
  destruct Hd as [Hd Hl]. simpl in Hl. rewrite Hl.
  change (length (f :: fs)) with (S (length fs)).
  case_bool_decide.
  - destruct (pd_concat cl); [|done].
    destruct (to_csv_bytes to_csv _ _); [done|].
    intros [= <-]. unfold download_names in *.
    rewrite omap_app, Hd. done.
  - intros [= <-]. by rewrite Hd, app_nil_r.
Qed.

Lemma main_download_names_witness :
  ∃ calls,
    main parses_vendor_row writes_nothing
      [some_upload "a.csv"; some_upload "b.csv"] = (calls, Completed)
    ∧ download_names calls
      = [lit "hatch_cleaned_a.csv"; lit "hatch_cleaned_b.csv";
         lit "hatch_cleaned_merged.csv"].
Proof.
  set (run := main parses_vendor_row writes_nothing
                [some_upload "a.csv"; some_upload "b.csv"]).
  assert (E : run = (run.1, Completed)) by (vm_compute; reflexivity).
  exists run.1. split; [exact E|].
  assert (Hne : [some_upload "a.csv"; some_upload "b.csv"] ≠ []) by done.
  rewrite (main_download_names ucd parses_vendor_row writes_nothing _ run.1
             Hne E).
  reflexivity.
Defined.


